(** * The sigil engine of [app.py]

    A shallow embedding of the letter atlas ([letter_mapping]), the word
    preprocessor ([preprocess_word]), the layout table ([all_positions]) and
    the renderer ([draw_rose_sigil]), with the properties of the
    specification proved about them; then the [/sigils] view and the planet
    selection of [get_planetary_hour], with properties read off the code.

    Conventions.
    - A Python [str] is a [string]; one [ascii] is one character.  The
      embedding of [str.upper] is exact on words of ASCII characters, the
      alphabet the atlas is written in.
    - A Python exception is a result [Raise e] of the error monad [res].
    - [dict]s are [gmap]s.
    - A float is a value of a type [F] with the operations of the class
      [Float64]; the renderer is verified for every such [F].
    - The calls to [matplotlib.pyplot] act on the list of open figures,
      threaded through [draw_rose_sigil] by the monad [plt]; the image the
      function returns is represented by the figure it is saved from. *)

From Stdlib Require Import ZArith Ascii String Reals Lra.
From stdpp Require Import base option list gmap strings fin_maps.

Local Open Scope string_scope.
Local Open Scope list_scope.

(** ** Exceptions *)

Inductive exn : Type :=
| IndexError
| KeyError.

Inductive res (A : Type) : Type :=
| Ok (a : A)
| Raise (e : exn).
Arguments Ok {A} a.
Arguments Raise {A} e.

Definition res_bind {A B : Type} (m : res A) (k : A → res B) : res B :=
  match m with
  | Ok a => k a
  | Raise e => Raise e
  end.

Notation "'let!' x ':=' m 'in' k" := (res_bind m (fun x => k))
  (at level 10, x pattern, m at level 100, k at level 200).

(** [for x in l: st = body st x], stopping at the first exception. *)
Fixpoint for_each {A S : Type} (l : list A) (body : S → A → res S) (st : S)
  : res S :=
  match l with
  | [] => Ok st
  | x :: l' => let! st' := body st x in for_each l' body st'
  end.

(** ** Strings *)

(** [c.upper()] for one ASCII character: a..z go to A..Z. *)
Definition upper_ascii (c : ascii) : ascii :=
  let n := N_of_ascii c in
  if ((97 <=? n) && (n <=? 122))%N then ascii_of_N (n - 32) else c.

(** [word.upper()] *)
Fixpoint upper (word : string) : string :=
  match word with
  | EmptyString => EmptyString
  | String c rest => String (upper_ascii c) (upper rest)
  end.

(** [word[i]] for [0 <= i]; out of range it raises [IndexError]. *)
Definition str_index (word : string) (i : nat) : res ascii :=
  match String.get i word with
  | Some c => Ok c
  | None => Raise IndexError
  end.

(** The one-character string [c]. *)
Definition str1 (c : ascii) : string := String c EmptyString.

(** [a + b] for two characters. *)
Definition str2 (a b : ascii) : string := String a (String b EmptyString).

(** [range(n)] *)
Definition range (n : nat) : list nat := seq 0 n.

(** ** The letter atlas *)

(** [letter_mapping]: key to a list holding one (symbol, color) pair. *)
Definition letter_mapping : gmap string (list (string * string)) :=
  list_to_map [
    ("A", [("A", "#FFFF00")]); ("E", [("A", "#FFFF00")]); ("B", [("B", "#FFFF00")]);
    ("C", [("G", "#0000FF")]); ("CH", [("Ch", "#FFD700")]); ("H", [("H", "#FF0000")]);
    ("G", [("G", "#0000FF")]); ("GH", [("GH", "#0000FF")]); ("D", [("D", "#008000")]);
    ("DH", [("DH", "#008000")]); ("V", [("V", "#FF4500")]); ("U", [("V", "#FF4500")]);
    ("W", [("V", "#FF4500")]); ("O", [("O", "#4B0082")]); ("Z", [("Z", "#FFA500")]);
    ("T", [("T", "#FFFF00")]); ("TH", [("TH", "#4B0082")]); ("I", [("I", "#9ACD32")]);
    ("J", [("I", "#9ACD32")]); ("Y", [("I", "#9ACD32")]); ("K", [("K", "#800080")]);
    ("KH", [("KH", "#9400D3")]); ("L", [("L", "#008000")]); ("M", [("M", "#0000FF")]);
    ("N", [("N", "#20B2AA")]); ("S", [("S", "#FF4500")]); ("SH", [("Sh", "#FF0000")]);
    ("P", [("P", "#FF0000")]); ("PH", [("PH", "#FFA500")]); ("F", [("F", "#FF0000")]);
    ("X", [("X", "#800080")]); ("TZ", [("X", "#800080")]); ("Q", [("Q", "#9400D3")]);
    ("R", [("R", "#FFA500")]); ("RH", [("RH", "#FFD700")])
  ].

(** [key in letter_mapping] *)
Definition in_mapping (key : string) : bool :=
  bool_decide (is_Some (letter_mapping !! key)).

Global Arguments in_mapping : simpl never.

(** ** The word preprocessor *)

(** One iteration of the [for i in range(len(word))] loop of
    [preprocess_word]; the state is [(processed_word, skip_next)]. *)
Definition preprocess_body (word : string)
    (st : list string * bool) (i : nat) : res (list string * bool) :=
  let '(processed_word, skip_next) := st in
  let single :=
    let! c := str_index word i in
    if in_mapping (str1 c)
    then Ok (processed_word ++ [str1 c], skip_next)
    else Ok (processed_word, skip_next) in
  if skip_next then Ok (processed_word, false)
  else if (Z.of_nat i <? Z.of_nat (String.length word) - 1)%Z then
    let! a := str_index word i in
    let! b := str_index word (i + 1) in
    let two_letter_combo := str2 a b in
    if in_mapping two_letter_combo
    then Ok (processed_word ++ [two_letter_combo], true)
    else single
  else single.

Definition preprocess_word (word : string) : res (list string) :=
  let word := upper word in
  let! st := for_each (range (String.length word)) (preprocess_body word) ([], false) in
  Ok st.1.

(** The tokenizer as the specification words it: a cursor over the
    upper-cased word that consumes two characters when they form an atlas
    key, else one character when it is an atlas key, else skips one. *)
Fixpoint greedy_tokens (word : string) : list string :=
  match word with
  | EmptyString => []
  | String a rest =>
      let single :=
        if in_mapping (str1 a) then str1 a :: greedy_tokens rest
        else greedy_tokens rest in
      match rest with
      | String b rest' =>
          if in_mapping (str2 a b) then str2 a b :: greedy_tokens rest'
          else single
      | EmptyString => single
      end
  end.

(** The keys of [letter_mapping], as the dict literal lists them. *)
Definition atlas_keys : list string :=
  ["A"; "E"; "B"; "C"; "CH"; "H"; "G"; "GH"; "D"; "DH"; "V"; "U"; "W"; "O";
   "Z"; "T"; "TH"; "I"; "J"; "Y"; "K"; "KH"; "L"; "M"; "N"; "S"; "SH"; "P";
   "PH"; "F"; "X"; "TZ"; "Q"; "R"; "RH"].

(** The word without the characters that are no atlas key once upper-cased. *)
Fixpoint strip_unmapped (word : string) : string :=
  match word with
  | EmptyString => EmptyString
  | String c rest =>
      if in_mapping (str1 (upper_ascii c)) then String c (strip_unmapped rest)
      else strip_unmapped rest
  end.


(** ** Numbers

    The coordinates are Python floats computed by numpy.  Their arithmetic
    is an interface: [fint] is an [int] operand promoted to a float, [flit m e]
    the literal [m / 10^e], the rest are the operations the source uses. *)
Class Float64 (F : Type) : Type := {
  fint : Z → F;
  flit : Z → nat → F;
  np_pi : F;
  np_cos : F → F;
  np_sin : F → F;
  fneg : F → F;
  fadd : F → F → F;
  fsub : F → F → F;
  fmul : F → F → F;
  fdiv : F → F → F;
}.

(** The floats as the expressions that compute them, compared syntactically:
    an instance in which every definition below evaluates. *)
Definition fexpr : Type := gen_tree Z.

Global Instance fexpr_float : Float64 fexpr := {|
  fint z := GenLeaf z;
  flit m e := GenNode 0 [GenLeaf m; GenLeaf (Z.of_nat e)];
  np_pi := GenNode 1 [];
  np_cos x := GenNode 2 [x];
  np_sin x := GenNode 3 [x];
  fneg x := GenNode 4 [x];
  fadd x y := GenNode 5 [x; y];
  fsub x y := GenNode 6 [x; y];
  fmul x y := GenNode 7 [x; y];
  fdiv x y := GenNode 8 [x; y];
|}.


(** ** The layout table *)

(** [enumerate(l)] *)
Definition enumerate {A : Type} (l : list A) : list (nat * A) :=
  zip (seq 0 (length l)) l.

(** [{k: v for ...}] over the pairs [kvs]: a later pair overwrites an
    earlier one with the same key. *)
Definition dict_of {V : Type} (kvs : list (string * V)) : gmap string V :=
  foldl (λ d kv, <[kv.1 := kv.2]> d) ∅ kvs.

(** [d.update(other)] *)
Definition dict_update {V : Type} (d other : gmap string V) : gmap string V :=
  other ∪ d.

Definition ordered_outer_letters : list string :=
  ["H"; "Z"; "V"; "E"; "Q"; "X"; "O"; "S"; "N"; "L"; "I"; "T"; "Ch"].

Definition ordered_middle_letters : list string :=
  ["R"; "RH"; "P"; "PH"; "F"; "K"; "KH"; "TH"; "G"; "GH"; "D"; "DH"; "B"].


Section Layout.
Context {F : Type} `{Float64 F}.

(** [(-np.cos(i*(2*np.pi/n))*r, np.sin(i*(2*np.pi/n))*r)] *)
Definition ring_position (i n : nat) (r : F) : F * F :=
  let angle := fmul (fint (Z.of_nat i))
                    (fdiv (fmul (fint 2) np_pi) (fint (Z.of_nat n))) in
  (fmul (fneg (np_cos angle)) r, fmul (np_sin angle) r).

(** The (key, value) pairs of the dict comprehension over one ring. *)
Definition ring_entries (letters : list string) (r : F) : list (string * (F * F)) :=
  (λ il : nat * string, (il.2, ring_position il.1 (length letters) r))
  <$> enumerate letters.

Definition ring_dict (letters : list string) (r : F) : gmap string (F * F) :=
  dict_of (ring_entries letters r).

(** [all_positions] as [draw_rose_sigil] builds it: the two ring updates,
    then the three assignments. *)
Definition all_positions : gmap string (F * F) :=
  let all_positions := ∅ in
  let all_positions :=
    dict_update all_positions (ring_dict ordered_outer_letters (fint 2)) in
  let all_positions :=
    dict_update all_positions (ring_dict ordered_middle_letters (flit 12 1)) in
  let all_positions := <["A" := (fint 0, flit 7 1)]> all_positions in
  let all_positions := <["M" := (fneg (flit 7 1), fint 0)]> all_positions in
  let all_positions := <["Sh" := (flit 7 1, fint 0)]> all_positions in
  all_positions.

End Layout.

(** ** The canvas *)

(** What [ax.text], [ax.plot] and [ax.add_patch(Circle(..., fill=False))]
    put on the axes. *)
Inductive artist (F : Type) : Type :=
| Text (x y : F) (s : string) (fontsize : Z) (ha va : string)
       (color : string) (fontweight : string)
| Line2D (xdata ydata : list F) (color : option string) (lw : Z)
| CirclePatch (center : F * F) (radius : F) (edgecolor : string) (lw : Z).
Arguments Text {F}.
Arguments Line2D {F}.
Arguments CirclePatch {F}.

(** A figure with its single axes.  [None] is matplotlib's default. *)
Record figure (F : Type) : Type := Figure {
  figsize : option (Z * Z);
  facecolor : option string;
  xlim : option (Z * Z);
  ylim : option (Z * Z);
  aspect : option string;
  axis_on : bool;
  title : option (string * string);
  artists : list (artist F);
}.
Arguments Figure {F}.
Arguments figsize {F}.
Arguments facecolor {F}.
Arguments xlim {F}.
Arguments ylim {F}.
Arguments aspect {F}.
Arguments axis_on {F}.
Arguments title {F}.
Arguments artists {F}.

(** The state of [matplotlib.pyplot]: the open figures, the current one
    first. *)
Definition pyplot (F : Type) : Type := list (figure F).

(** A computation that reads and changes the pyplot state and may raise. *)
Definition plt (F A : Type) : Type := pyplot F → res A * pyplot F.

Definition plt_ret {F A : Type} (a : A) : plt F A := λ st, (Ok a, st).

Definition plt_bind {F A B : Type} (m : plt F A) (k : A → plt F B) : plt F B :=
  λ st, match m st with
        | (Ok a, st') => k a st'
        | (Raise e, st') => (Raise e, st')
        end.

Definition plt_lift {F A : Type} (r : res A) : plt F A := λ st, (r, st).

Notation "'do!' x ':=' m 'in' k" := (plt_bind m (fun x => k))
  (at level 10, x pattern, m at level 100, k at level 200).

(** [for x in l] in the [plt] monad. *)
Fixpoint plt_for {F A S : Type} (l : list A) (body : S → A → plt F S) (st : S)
  : plt F S :=
  match l with
  | [] => plt_ret st
  | x :: l' => do! st' := body st x in plt_for l' body st'
  end.

Definition default_figure {F : Type} : figure F :=
  Figure None None None None None true None [].

(** The current figure and the other open ones; pyplot makes a figure when
    none is open. *)
Definition gcf {F : Type} (st : pyplot F) : figure F * pyplot F :=
  match st with
  | fig :: others => (fig, others)
  | [] => (default_figure, [])
  end.

Definition on_current {F : Type} (f : figure F → figure F) : plt F unit :=
  λ st, let '(fig, others) := gcf st in (Ok tt, f fig :: others).

Definition add_artist {F : Type} (a : artist F) (fig : figure F) : figure F :=
  Figure (figsize fig) (facecolor fig) (xlim fig) (ylim fig) (aspect fig)
         (axis_on fig) (title fig) (artists fig ++ [a]).

(** [fig, ax = plt.subplots(figsize=..., facecolor=...)]: a new figure, which
    becomes the current one.  [ax] is its axes; up to [plt.close()] no other
    figure is opened or closed, so the [ax] methods below act on the current
    figure. *)
Definition plt_subplots {F : Type} (size : Z * Z) (face : string) : plt F unit :=
  λ st, (Ok tt, Figure (Some size) (Some face) None None None true None [] :: st).

Definition ax_set_xlim {F : Type} (lo hi : Z) : plt F unit :=
  on_current (λ fig, Figure (figsize fig) (facecolor fig) (Some (lo, hi))
                            (ylim fig) (aspect fig) (axis_on fig) (title fig)
                            (artists fig)).

Definition ax_set_ylim {F : Type} (lo hi : Z) : plt F unit :=
  on_current (λ fig, Figure (figsize fig) (facecolor fig) (xlim fig)
                            (Some (lo, hi)) (aspect fig) (axis_on fig)
                            (title fig) (artists fig)).

Definition ax_set_aspect {F : Type} (a : string) : plt F unit :=
  on_current (λ fig, Figure (figsize fig) (facecolor fig) (xlim fig) (ylim fig)
                            (Some a) (axis_on fig) (title fig) (artists fig)).

Definition ax_add_patch {F : Type} (a : artist F) : plt F unit :=
  on_current (add_artist a).

Definition ax_text {F : Type} (x y : F) (s : string) (fontsize : Z)
    (ha va color fontweight : string) : plt F unit :=
  on_current (add_artist (Text x y s fontsize ha va color fontweight)).

Definition ax_plot {F : Type} (xdata ydata : list F) (color : option string)
    (lw : Z) : plt F unit :=
  on_current (add_artist (Line2D xdata ydata color lw)).

(** [plt.axis('off')] *)
Definition plt_axis_off {F : Type} : plt F unit :=
  on_current (λ fig, Figure (figsize fig) (facecolor fig) (xlim fig) (ylim fig)
                            (aspect fig) false (title fig) (artists fig)).

Definition plt_title {F : Type} (s color : string) : plt F unit :=
  on_current (λ fig, Figure (figsize fig) (facecolor fig) (xlim fig) (ylim fig)
                            (aspect fig) (axis_on fig) (Some (s, color))
                            (artists fig)).

(** [plt.savefig(img, format='png', facecolor=fig.get_facecolor())]: the
    image of the current figure, represented by the figure it encodes. *)
Definition plt_savefig {F : Type} : plt F (figure F) :=
  λ st, let '(fig, others) := gcf st in (Ok fig, fig :: others).

(** [plt.close()]: closes the current figure, if there is one. *)
Definition plt_close {F : Type} : plt F unit :=
  λ st, (Ok tt, tail st).

(** [l[i]] on a list *)
Definition list_index {A : Type} (l : list A) (i : nat) : res A :=
  match l !! i with
  | Some a => Ok a
  | None => Raise IndexError
  end.

(** ** The renderer *)

Section Renderer.
Context {F : Type} `{Float64 F} `{Countable F}.

(** The local variables of the drawing loop. *)
Record locals : Type := Locals {
  prev_pos : option (F * F);
  prev_color : option string;
  first_pos : option (F * F);
  last_pos : option (F * F);
  seen_positions : gmap (F * F) bool;
}.

Definition init_locals : locals := Locals None None None None ∅.

(** The ring that marks a return to a visited position. *)
Definition repeat_ring (xy : F * F) (color : string) : artist F :=
  CirclePatch xy (flit 2 1) color 2.

(** One iteration of [for char in word].  A 2-tuple is true as a
    condition, so [if prev_pos] tests for [None]. *)
Definition loop_body (st : locals) (char : string) : plt F locals :=
  match letter_mapping !! char with
  | None => plt_ret st
  | Some entries =>
      do! (letter, color) := plt_lift (list_index entries 0) in
      match all_positions !! letter with
      | None => plt_ret st                      (* continue *)
      | Some (x, y) =>
          do! _ := ax_text x y letter 16 "center" "center" color "bold" in
          do! _ := match prev_pos st with
                   | Some p => ax_plot [p.1; x] [p.2; y] (prev_color st) 2
                   | None => plt_ret tt
                   end in
          do! _ := if bool_decide (is_Some (seen_positions st !! (x, y)))
                   then ax_add_patch (repeat_ring (x, y) color)
                   else plt_ret tt in
          let seen_positions := <[(x, y) := true]> (seen_positions st) in
          let first_pos := match first_pos st with
                           | None => Some (x, y)
                           | Some p => Some p
                           end in
          plt_ret (Locals (Some (x, y)) (Some color) first_pos (Some (x, y))
                          seen_positions)
      end
  end.

Definition bounding_circle : artist F :=
  CirclePatch (fint 0, fint 0) (flit 25 1) "black" 2.

Definition start_marker (p : F * F) : artist F :=
  CirclePatch p (flit 2 1) "black" 3.

Definition end_marker (p : F * F) : artist F :=
  Line2D [p.1; fadd p.1 (flit 2 1)] [p.2; fsub p.2 (flit 2 1)] (Some "black") 3.

Definition draw_rose_sigil (word : string) : plt F (figure F) :=
  do! word := plt_lift (preprocess_word word) in
  do! _ := plt_subplots (6, 6)%Z "#D3D3D3" in
  do! _ := ax_set_xlim (-3) 3 in
  do! _ := ax_set_ylim (-3) 3 in
  do! _ := ax_set_aspect "equal" in
  do! _ := ax_add_patch bounding_circle in
  do! st := plt_for word loop_body init_locals in
  do! _ := match first_pos st with
           | Some p => ax_add_patch (start_marker p)
           | None => plt_ret tt
           end in
  do! _ := match last_pos st with
           | Some p => ax_plot [p.1; fadd p.1 (flit 2 1)]
                               [p.2; fsub p.2 (flit 2 1)] (Some "black") 3
           | None => plt_ret tt
           end in
  do! _ := plt_axis_off in
  do! _ := plt_title "An Alchemelodic Sigil Generator" "black" in
  do! img := plt_savefig in
  do! _ := plt_close in
  plt_ret img.

(** *** The resolved sequence *)

(** A token resolved through the atlas and the layout table:
    (symbol, color, coordinate). *)
Definition resolve (char : string) : option (string * string * (F * F)) :=
  match letter_mapping !! char with
  | Some ((letter, color) :: _) =>
      match all_positions !! letter with
      | Some xy => Some (letter, color, xy)
      | None => None
      end
  | _ => None
  end.

Definition resolved (tokens : list string) : list (string * string * (F * F)) :=
  omap resolve tokens.

Definition coords (es : list (string * string * (F * F))) : list (F * F) :=
  snd <$> es.

(** *** The drawing, step by step

    What the loop has drawn and remembers after the resolved symbols
    [before], written as functions of that sequence. *)

Definition seen_of (cs : list (F * F)) : gmap (F * F) bool :=
  foldl (λ seen xy, <[xy := true]> seen) ∅ cs.

Definition locals_after (before : list (string * string * (F * F))) : locals :=
  Locals (snd <$> last before) ((λ e, e.1.2) <$> last before)
         (snd <$> head before) (snd <$> last before)
         (seen_of (coords before)).

Definition label (e : string * string * (F * F)) : artist F :=
  Text e.2.1 e.2.2 e.1.1 16 "center" "center" e.1.2 "bold".

(** The segment from [e1] to [e2], in the color of [e1]. *)
Definition segment (e1 e2 : string * string * (F * F)) : artist F :=
  Line2D [e1.2.1; e2.2.1] [e1.2.2; e2.2.2] (Some e1.1.2) 2.

Definition step_artists (before : list (string * string * (F * F)))
    (e : string * string * (F * F)) : list (artist F) :=
  [label e]
  ++ match last before with
     | Some p => [segment p e]
     | None => []
     end
  ++ (if bool_decide (e.2 ∈ coords before) then [repeat_ring e.2 e.1.2] else []).

Fixpoint path_artists (before es : list (string * string * (F * F)))
  : list (artist F) :=
  match es with
  | [] => []
  | e :: es' => step_artists before e ++ path_artists (before ++ [e]) es'
  end.

Definition add_artists (l : list (artist F)) (fig : figure F) : figure F :=
  Figure (figsize fig) (facecolor fig) (xlim fig) (ylim fig) (aspect fig)
         (axis_on fig) (title fig) (artists fig ++ l).

(** The frame every sigil shares, with the artists [l] on it. *)
Definition framed (l : list (artist F)) : figure F :=
  Figure (Some (6, 6)%Z) (Some "#D3D3D3") (Some (-3, 3)%Z) (Some (-3, 3)%Z)
         (Some "equal") false
         (Some ("An Alchemelodic Sigil Generator", "black")) l.

Definition sigil_artists (es : list (string * string * (F * F)))
  : list (artist F) :=
  bounding_circle :: path_artists [] es
  ++ match head es with Some e => [start_marker e.2] | None => [] end
  ++ match last es with Some e => [end_marker e.2] | None => [] end.

(** The segments of the path: one per consecutive pair. *)
Fixpoint segments (es : list (string * string * (F * F))) : list (artist F) :=
  match es with
  | e1 :: ((e2 :: _) as es') => segment e1 e2 :: segments es'
  | _ => []
  end.

(** The lines of width 2, which are the segments [ax.plot] draws in the
    loop (the end marker has width 3). *)
Definition is_path_line (a : artist F) : bool :=
  match a with
  | Line2D _ _ _ lw => bool_decide (lw = 2%Z)
  | _ => false
  end.
End Renderer.

(** ** The sigils route *)







Section Routes.
Context {F : Type} `{Float64 F} `{Countable F}.

End Routes.

(** ** The planner helpers *)

Definition planets : list string :=
  ["Sun"; "Venus"; "Mercury"; "Moon"; "Saturn"; "Jupiter"; "Mars"].

Definition start_planet : gmap string string :=
  list_to_map [
    ("Sunday", "Sun"); ("Monday", "Moon"); ("Tuesday", "Mars");
    ("Wednesday", "Mercury"); ("Thursday", "Jupiter");
    ("Friday", "Venus"); ("Saturday", "Saturn")
  ].

(** [l.index(x)]; [None] is the [ValueError]. *)
Fixpoint list_index_of (x : string) (l : list string) : option nat :=
  match l with
  | [] => None
  | y :: l' => if decide (x = y) then Some 0 else S <$> list_index_of x l'
  end.

(** [l[i]] for an integer [i]: a negative index counts from the end;
    [None] is the [IndexError]. *)
Definition py_index {A : Type} (l : list A) (i : Z) : option A :=
  let n := Z.of_nat (length l) in
  if (0 <=? i)%Z then l !! Z.to_nat i
  else if (- n <=? i)%Z then l !! Z.to_nat (n + i)
  else None.

(** The planet selection of [get_planetary_hour], from the point where the
    weekday name, the test [sunrise <= current_time < sunset] and the whole
    number of planetary hours since sunrise (by day) or sunset (by night)
    are known.  [None] is an exception. *)
Definition current_planet (day_of_week : string) (daytime : bool) (hours : Z)
  : option string :=
  day_start_planet ← start_planet !! day_of_week;
  if daytime then
    idx ← list_index_of day_start_planet planets;
    py_index planets ((Z.of_nat idx + hours) mod 7)%Z
  else
    idx ← list_index_of day_start_planet planets;
    py_index planets ((Z.of_nat idx + 12 + hours) mod 7)%Z.

(** [get_planetary_hour] from that point on: the [except] clause turns any
    exception into the fallback text. *)
Definition get_planetary_hour (day_of_week : string) (daytime : bool) (hours : Z)
  : string :=
  match current_planet day_of_week daytime hours with
  | Some planet => planet
  | None => "Planetary hour data unavailable"
  end.

(** The weekday names in the order of the week. *)
Definition weekdays : list string :=
  ["Sunday"; "Monday"; "Tuesday"; "Wednesday"; "Thursday"; "Friday"; "Saturday"].

(** ** Reading a figure *)

Definition is_label {F : Type} (a : artist F) : bool :=
  match a with
  | Text _ _ _ _ _ _ _ _ => true
  | _ => false
  end.

(** The circles of line width 2: the bounding circle and the repeat rings
    (the start marker has width 3). *)
Definition is_thin_circle {F : Type} (a : artist F) : bool :=
  match a with
  | CirclePatch _ _ _ lw => bool_decide (lw = 2%Z)
  | _ => false
  end.



(** * Properties *)

(** ** Facts about strings and the loop *)

Lemma string_app_cons (c : ascii) (s1 s2 : string) :
  String c s1 +:+ s2 = String c (s1 +:+ s2).
Proof. reflexivity. Qed.

Lemma string_app_nil_l (s : string) : "" +:+ s = s.
Proof. reflexivity. Qed.

Lemma string_length_app (s1 s2 : string) :
  String.length (s1 +:+ s2) = String.length s1 + String.length s2.
Proof.
  induction s1 as [|c s1 IH]; [done|].
  rewrite string_app_cons. simpl. by rewrite IH.
Qed.

Lemma string_app_assoc (s1 s2 s3 : string) :
  (s1 +:+ s2) +:+ s3 = s1 +:+ (s2 +:+ s3).
Proof.
  induction s1 as [|c s1 IH]; [done|].
  rewrite !string_app_cons. by rewrite IH.
Qed.

Lemma str_index_app (pre s : string) (k : nat) :
  str_index (pre +:+ s) (String.length pre + k) = str_index s k.
Proof.
  unfold str_index. rewrite (Nat.add_comm (String.length pre) k).
  by rewrite <- append_correct2.
Qed.

Lemma str_index_app_0 (pre s : string) :
  str_index (pre +:+ s) (String.length pre) = str_index s 0.
Proof.
  pose proof (str_index_app pre s 0) as H. by rewrite Nat.add_0_r in H.
Qed.



Lemma upper_ascii_idemp (c : ascii) : upper_ascii (upper_ascii c) = upper_ascii c.
Proof. by destruct c as [[] [] [] [] [] [] [] []]. Qed.

Lemma upper_idemp (word : string) : upper (upper word) = upper word.
Proof.
  induction word as [|c w IH]; simpl; [done|].
  by rewrite upper_ascii_idemp, IH.
Qed.

(** The loop of [preprocess_word], started at the cursor position
    [String.length pre] with the flag down, computes the greedy tokens of
    the rest of the word. *)
Lemma preprocess_loop (n : nat) :
  ∀ (s pre : string) (acc : list string),
    (String.length s ≤ n)%nat →
    for_each (seq (String.length pre) (String.length s))
             (preprocess_body (pre +:+ s)) (acc, false)
    = Ok (acc ++ greedy_tokens s, false).
Proof.
  induction n as [|n IH]; intros s pre acc Hn.
  { destruct s; simpl in Hn; [|lia]. simpl. by rewrite app_nil_r. }
  destruct s as [|a rest]; [simpl; by rewrite app_nil_r|].
  cbn [String.length] in Hn.
  cbn [String.length seq for_each].
  assert (Hi : str_index (pre +:+ String a rest) (String.length pre) = Ok a)
    by (by rewrite str_index_app_0).
  assert (Hnext : ∀ acc',
    for_each (seq (S (String.length pre)) (String.length rest))
             (preprocess_body (pre +:+ String a rest)) (acc', false)
    = Ok (acc' ++ greedy_tokens rest, false)).
  { intros acc'. specialize (IH rest (pre +:+ str1 a) acc').
    rewrite string_length_app, string_app_assoc in IH.
    unfold str1 in IH. rewrite string_app_cons, string_app_nil_l in IH.
    cbn [String.length] in IH.
    rewrite Nat.add_1_r in IH. apply IH. lia. }
  unfold preprocess_body at 1. rewrite !Hi.
  rewrite string_length_app.
  destruct rest as [|b rest']; cbn [String.length res_bind greedy_tokens] in *.
  - (* last character: no window *)
    destruct (Z.ltb_spec (Z.of_nat (String.length pre))
                (Z.of_nat (String.length pre + 1) - 1)) as [Hlt|_]; [lia|].
    destruct (in_mapping (str1 a)); cbn [seq for_each res_bind];
      by rewrite ?app_nil_r.
  - destruct (Z.ltb_spec (Z.of_nat (String.length pre))
                (Z.of_nat (String.length pre + S (S (String.length rest'))) - 1))
      as [_|Hge]; [|lia].
    assert (Hi1 : str_index (pre +:+ String a (String b rest'))
                    (String.length pre + 1) = Ok b)
      by (by rewrite str_index_app).
    rewrite Hi1. cbn [res_bind].
    destruct (in_mapping (str2 a b)) eqn:Hab.
    + (* two-letter key: append it, the next index is skipped *)
      cbn [seq for_each res_bind]. unfold preprocess_body at 1.
      cbn [res_bind].
      specialize (IH rest' (pre +:+ str2 a b) (acc ++ [str2 a b])).
      rewrite string_length_app, string_app_assoc in IH.
      unfold str2 in IH at 1 2.
      rewrite !string_app_cons, string_app_nil_l in IH.
      cbn [String.length] in IH.
      replace (String.length pre + 2) with (S (S (String.length pre))) in IH by lia.
      rewrite IH by lia.
      by rewrite <- app_assoc.
    + destruct (in_mapping (str1 a)); cbn [res_bind]; rewrite Hnext;
        by rewrite <- ?app_assoc.
Qed.

Lemma preprocess_word_greedy (word : string) :
  preprocess_word word = Ok (greedy_tokens (upper word)).
Proof.
  unfold preprocess_word, range.
  pose proof (preprocess_loop (String.length (upper word)) (upper word) "" []) as H.
  rewrite string_app_nil_l in H. cbn [String.length app] in H.
  rewrite H by done. done.
Qed.

(** ** Facts about the atlas *)

Lemma atlas_keys_dom : dom letter_mapping = list_to_set atlas_keys.
Proof.
  unfold letter_mapping. rewrite dom_list_to_map_L. reflexivity.
Qed.

Lemma in_mapping_true (key : string) :
  in_mapping key = true ↔ key ∈ atlas_keys.
Proof.
  unfold in_mapping. rewrite bool_decide_eq_true, <- elem_of_dom, atlas_keys_dom.
  apply elem_of_list_to_set.
Qed.


(** Try each key of the atlas in turn. *)
Ltac each_key H :=
  unfold atlas_keys in H;
  repeat (apply elem_of_cons in H as [H|H]);
  [.. | by apply elem_of_nil in H].





(** ** The preprocessor: claims *)




(** C9. Preprocessing is case-insensitive: a word and its upper-cased form
    have the same tokens; in particular [preprocess("ch")] equals
    [preprocess("CH")]. *)
Theorem preprocess_case_insensitive :
  (∀ word : string, preprocess_word word = preprocess_word (upper word))
  ∧ preprocess_word "ch" = preprocess_word "CH".
Proof.
  split; [|vm_compute; reflexivity].
  intros word. by rewrite !preprocess_word_greedy, upper_idemp.
Qed.

(** C10. An unmapped character is skipped in place and still occupies a scan
    position, so no two-letter key forms across it: [preprocess("C1H")] is
    [["C","H"]] while [preprocess("CH")], the word without its unmapped
    character, is [["CH"]]. *)
Theorem unmapped_blocks_pair :
  preprocess_word "C1H" = Ok ["C"; "H"]
  ∧ preprocess_word "CH" = Ok ["CH"]
  ∧ strip_unmapped "C1H" = "CH"
  ∧ ¬ (∀ word : string,
         preprocess_word word = preprocess_word (strip_unmapped word)).
Proof.
  split; [vm_compute; reflexivity|].
  split; [vm_compute; reflexivity|].
  split; [vm_compute; reflexivity|].
  intros H. specialize (H "C1H"). vm_compute in H. discriminate H.
Qed.


(** ** The layout table: keys *)



Section LayoutFacts.
Context {F : Type} `{Float64 F}.





End LayoutFacts.

(** ** The layout table over the reals *)










(** ** The layout table: claim *)


(** ** The renderer: how the loop runs *)

Section RendererFacts.
Context {F : Type} `{Float64 F} `{Countable F}.
Implicit Types (e : string * string * (F * F)).
Implicit Types (before es : list (string * string * (F * F))).

(** Every atlas entry is a one-element list whose symbol has a layout. *)
Lemma atlas_entries (char : string) (entries : list (string * string)) :
  letter_mapping !! char = Some entries →
  ∃ letter color xy,
    entries = [(letter, color)] ∧ all_positions (F:=F) !! letter = Some xy.
Proof.
  intros Hl.
  assert (Hk : char ∈ atlas_keys)
    by (apply in_mapping_true, bool_decide_eq_true; by rewrite Hl).
  each_key Hk; subst char; vm_compute in Hl;
    injection Hl as <-; do 3 eexists; (split; [reflexivity|]);
    vm_compute; reflexivity.
Qed.

Lemma resolve_entries (char : string) (entries : list (string * string)) :
  letter_mapping !! char = Some entries →
  ∃ letter color xy,
    entries = [(letter, color)] ∧ all_positions (F:=F) !! letter = Some xy
    ∧ resolve char = Some (letter, color, xy).
Proof.
  intros Hl. destruct (atlas_entries _ _ Hl) as (letter & color & xy & -> & Hp).
  exists letter, color, xy. repeat split; [done|].
  unfold resolve. by rewrite Hl, Hp.
Qed.

Lemma resolve_None (char : string) :
  letter_mapping !! char = None → resolve (F:=F) char = None.
Proof. intros Hl. unfold resolve. by rewrite Hl. Qed.

Lemma seen_of_snoc (cs : list (F * F)) (xy : F * F) :
  seen_of (cs ++ [xy]) = <[xy := true]> (seen_of cs).
Proof. unfold seen_of. by rewrite foldl_app. Qed.

Lemma seen_of_lookup (cs : list (F * F)) (xy : F * F) :
  is_Some (seen_of cs !! xy) ↔ xy ∈ cs.
Proof.
  induction cs as [|c cs IH] using rev_ind.
  - unfold seen_of. cbn [foldl]. rewrite lookup_empty, elem_of_nil.
    split; [by intros [? ?] | done].
  - rewrite seen_of_snoc, elem_of_app, list_elem_of_singleton.
    destruct (decide (c = xy)) as [->|Hne].
    + rewrite lookup_insert_eq. split; [by right | by eexists].
    + rewrite lookup_insert_ne by done. rewrite IH.
      split; [by left | by intros [?|?]].
Qed.

Lemma add_artists_nil (fig : figure F) : add_artists [] fig = fig.
Proof. destruct fig. unfold add_artists. cbn. by rewrite app_nil_r. Qed.

Lemma add_artists_app (l1 l2 : list (artist F)) (fig : figure F) :
  add_artists l2 (add_artists l1 fig) = add_artists (l1 ++ l2) fig.
Proof. unfold add_artists. cbn. by rewrite app_assoc. Qed.


Lemma add_artist_single (a : artist F) (fig : figure F) :
  add_artist a fig = add_artists [a] fig.
Proof. reflexivity. Qed.

Lemma locals_after_snoc before e :
  locals_after (before ++ [e]) =
    Locals (Some e.2) (Some e.1.2)
           (match first_pos (locals_after before) with
            | None => Some e.2
            | Some p => Some p
            end)
           (Some e.2)
           (<[e.2 := true]> (seen_positions (locals_after before))).
Proof.
  unfold locals_after, coords. cbn [first_pos seen_positions].
  rewrite last_snoc, fmap_app.
  change (snd <$> [e]) with [e.2]. rewrite seen_of_snoc.
  cbn [fmap option_fmap option_map].
  f_equal. destruct before; reflexivity.
Qed.

(** One iteration from the state reached after [before]: a token that
    does not resolve changes nothing, one that resolves to [e] draws
    [step_artists before e]. *)
Lemma loop_body_step before (char : string) (fig : figure F) (st : pyplot F) :
  loop_body (locals_after before) char (fig :: st) =
    match resolve char with
    | Some e => (Ok (locals_after (before ++ [e])),
                 add_artists (step_artists before e) fig :: st)
    | None => (Ok (locals_after before), fig :: st)
    end.
Proof.
  unfold loop_body. destruct (letter_mapping !! char) as [entries|] eqn:Hl.
  2: { by rewrite resolve_None. }
  destruct (resolve_entries _ _ Hl) as (letter & color & [x y] & -> & Hp & ->).
  unfold plt_bind at 1. unfold plt_lift, list_index. cbn [lookup list_lookup].
  rewrite Hp. rewrite locals_after_snoc.
  unfold step_artists, label, segment, repeat_ring.
  cbn [fst snd].
  assert (Hseen : bool_decide (is_Some (seen_positions (locals_after before) !! (x, y)))
                  = bool_decide ((x, y) ∈ coords before)).
  { apply bool_decide_ext. apply seen_of_lookup. }
  unfold plt_bind, plt_lift, list_index, plt_ret, ax_text, ax_plot,
    ax_add_patch, on_current, gcf. cbn [lookup list_lookup].
  rewrite Hseen. cbn [prev_pos prev_color locals_after].
  destruct (last before) as [[[l' c'] [x' y']]|];
    cbn [fmap option_fmap option_map fst snd];
    destruct (bool_decide ((x, y) ∈ coords before));
    rewrite !add_artist_single, ?add_artists_app; reflexivity.
Qed.

(** The whole loop, from the state reached after [before]. *)
Lemma loop_run (tokens : list string) :
  ∀ before (fig : figure F) (st : pyplot F),
    plt_for tokens loop_body (locals_after before) (fig :: st) =
      (Ok (locals_after (before ++ resolved tokens)),
       add_artists (path_artists before (resolved tokens)) fig :: st).
Proof.
  induction tokens as [|char tokens IH]; intros before fig st.
  - cbn. by rewrite app_nil_r, add_artists_nil.
  - cbn [plt_for]. unfold plt_bind. rewrite loop_body_step.
    unfold resolved. cbn [omap list_omap].
    destruct (resolve char) as [e|].
    + rewrite IH. cbn [path_artists]. rewrite add_artists_app.
      by rewrite <- app_assoc.
    + apply IH.
Qed.

Lemma init_locals_after : init_locals (F:=F) = locals_after [].
Proof. reflexivity. Qed.

(** The whole function: it returns the framed figure of the resolved
    sequence and leaves the pyplot state as it found it. *)
Lemma bind_on_current {B : Type} (f : figure F → figure F)
    (k : unit → plt F B) (fig : figure F) (st : pyplot F) :
  (do! x := on_current f in k x) (fig :: st) = k tt (f fig :: st).
Proof. reflexivity. Qed.

Lemma bind_ret {A B : Type} (a : A) (k : A → plt F B) (st : pyplot F) :
  (do! x := plt_ret a in k x) st = k a st.
Proof. reflexivity. Qed.

Lemma draw_rose_sigil_run (word : string) (st : pyplot F) :
  draw_rose_sigil word st =
    (Ok (framed (sigil_artists (resolved (greedy_tokens (upper word))))), st).
Proof.
  unfold draw_rose_sigil. unfold plt_bind at 1.
  unfold plt_lift. rewrite preprocess_word_greedy.
  set (es := resolved (greedy_tokens (upper word))).
  unfold plt_bind at 1. unfold plt_subplots.
  unfold ax_set_xlim, ax_set_ylim, ax_set_aspect, ax_add_patch, ax_plot,
    plt_axis_off, plt_title.
  rewrite !bind_on_current.
  cbn [add_artist figsize facecolor xlim ylim aspect axis_on title artists app].
  unfold plt_bind at 1. rewrite init_locals_after, loop_run.
  fold es. clearbody es. cbn [app].
  unfold locals_after at 1 2. cbn [first_pos last_pos].
  unfold add_artists at 1.
  cbn [figsize facecolor xlim ylim aspect axis_on title artists app].
  unfold sigil_artists, framed, start_marker, end_marker.
  destruct (head es) as [e0|]; destruct (last es) as [e1|];
    cbn [fmap option_fmap option_map];
    rewrite ?bind_on_current, ?bind_ret;
    cbn [add_artist figsize facecolor xlim ylim aspect axis_on title artists];
    rewrite ?bind_on_current, ?bind_ret;
    cbn [add_artist figsize facecolor xlim ylim aspect axis_on title artists];
    rewrite ?bind_on_current;
    cbn [figsize facecolor xlim ylim aspect axis_on title artists];
    unfold plt_bind, plt_savefig, plt_close, plt_ret, gcf; cbn [tail];
    rewrite ?app_nil_r, <- ?app_assoc; reflexivity.
Qed.
End RendererFacts.

(** ** Tokens and segments *)

Lemma greedy_tokens_keys (n : nat) :
  ∀ w : string, (String.length w ≤ n)%nat →
    Forall (λ t, in_mapping t = true) (greedy_tokens w).
Proof.
  induction n as [|n IH]; intros w Hn.
  { destruct w; cbn [String.length] in Hn; [constructor | lia]. }
  destruct w as [|a [|b r]]; cbn [String.length] in Hn.
  - constructor.
  - cbn [greedy_tokens]. destruct (in_mapping (str1 a)) eqn:Ha; by repeat constructor.
  - change (greedy_tokens (String a (String b r)))
      with (if in_mapping (str2 a b) then str2 a b :: greedy_tokens r
            else if in_mapping (str1 a) then str1 a :: greedy_tokens (String b r)
            else greedy_tokens (String b r)).
    pose proof (IH r ltac:(lia)) as Hr.
    pose proof (IH (String b r) ltac:(cbn [String.length]; lia)) as Hbr.
    destruct (in_mapping (str2 a b)) eqn:Hab; [by constructor|].
    destruct (in_mapping (str1 a)) eqn:Ha; [by constructor | done].
Qed.


Section PathFacts.
Context {F : Type} `{Float64 F} `{Countable F}.
Implicit Types (e : string * string * (F * F)).
Implicit Types (before es : list (string * string * (F * F))).

Lemma resolved_keys (tokens : list string) :
  Forall (λ t, in_mapping t = true) tokens →
  Forall2 (λ t e, resolve t = Some e) tokens (resolved (F:=F) tokens).
Proof.
  induction 1 as [|t tokens Ht _ IH]; [constructor|].
  unfold in_mapping in Ht. apply bool_decide_eq_true in Ht as [entries Hl].
  destruct (resolve_entries (F:=F) _ _ Hl) as (l & c & xy & _ & _ & Hr).
  unfold resolved. cbn [omap list_omap]. rewrite Hr. by constructor.
Qed.


Lemma filter_step_artists before e :
  filter is_path_line (step_artists before e) =
    match last before with Some p => [segment p e] | None => [] end.
Proof.
  unfold step_artists. rewrite !filter_app.
  destruct (last before) as [p|];
    destruct (bool_decide (e.2 ∈ coords before)); reflexivity.
Qed.

Lemma filter_path_artists es :
  ∀ before,
    filter is_path_line (path_artists before es) =
      match last before with
      | Some p => segments (p :: es)
      | None => segments es
      end.
Proof.
  induction es as [|e es IH]; intros before.
  - cbn. by destruct (last before).
  - cbn [path_artists]. rewrite filter_app, filter_step_artists, IH, last_snoc.
    destruct (last before) as [p|]; reflexivity.
Qed.

Lemma filter_sigil_artists es :
  filter is_path_line (sigil_artists es) = segments es.
Proof.
  unfold sigil_artists. rewrite filter_cons. cbn [is_path_line bounding_circle].
  rewrite !filter_app, filter_path_artists. cbn [last].
  destruct (head es), (last es); cbn; by rewrite ?app_nil_r.
Qed.

Lemma segments_lookup es :
  ∀ k e1 e2, es !! k = Some e1 → es !! S k = Some e2 →
    segment e1 e2 ∈ segments es.
Proof.
  induction es as [|e es IH]; intros k e1 e2 H1 H2; [done|].
  destruct es as [|e' es]; [done|].
  destruct k as [|k].
  - cbn in H1, H2. injection H1 as ->. injection H2 as ->.
    cbn [segments]. by left.
  - cbn [segments]. right. by apply (IH k).
Qed.
End PathFacts.

(** ** The renderer: claims *)

Section RendererClaims.
Context {F : Type} `{Float64 F} `{Countable F}.
Implicit Types (e : string * string * (F * F)).

(** C3. For every key of the atlas, the symbol it maps to has an entry in
    the layout table.  Consequently, for every word, every token the loop
    meets is in the atlas with a symbol that has a layout, so the branch
    that skips a symbol without layout is never taken, and the rendering
    raises nothing. *)
Theorem atlas_symbols_have_layout :
  map_Forall (λ (key : string) (entries : list (string * string)),
                ∃ letter color (xy : F * F),
                  entries = [(letter, color)]
                  ∧ all_positions !! letter = Some xy) letter_mapping
  ∧ (∀ word : string, ∃ tokens : list string,
       preprocess_word word = Ok tokens
       ∧ Forall (λ char, ∃ letter color (xy : F * F),
                   letter_mapping !! char = Some [(letter, color)]
                   ∧ all_positions !! letter = Some xy) tokens
       ∧ length (resolved (F:=F) tokens) = length tokens)
  ∧ (∀ (word : string) (st : pyplot F), ∃ fig : figure F,
       draw_rose_sigil word st = (Ok fig, st)).
Proof.
  split; [|split].
  - intros key entries Hl. apply (atlas_entries _ _ Hl).
  - intros word. exists (greedy_tokens (upper word)).
    split; [apply preprocess_word_greedy|].
    pose proof (greedy_tokens_keys _ (upper word) (le_n _)) as Hk.
    split.
    + eapply Forall_impl; [exact Hk|]. intros char Hc. cbn beta in Hc.
      unfold in_mapping in Hc. apply bool_decide_eq_true in Hc as [entries Hl].
      destruct (atlas_entries (F:=F) _ _ Hl) as (l & c & xy & -> & Hp).
      by exists l, c, xy.
    + symmetry. eapply Forall2_length, resolved_keys, Hk.
  - intros word st. eexists. apply draw_rose_sigil_run.
Qed.


(** C5. The lines the loop draws are exactly the segments between
    consecutive resolved coordinates, each in the color of the symbol it
    starts from; so every consecutive pair of the resolved sequence is
    joined by such a segment. *)
Theorem segments_colored_by_source (word : string) (st : pyplot F) :
  ∃ (tokens : list string) (fig : figure F),
    preprocess_word word = Ok tokens
    ∧ draw_rose_sigil word st = (Ok fig, st)
    ∧ filter is_path_line (artists fig) = segments (resolved tokens)
    ∧ ∀ (k : nat) e1 e2,
        resolved tokens !! k = Some e1 →
        resolved tokens !! S k = Some e2 →
        Line2D [e1.2.1; e2.2.1] [e1.2.2; e2.2.2] (Some e1.1.2) 2
          ∈ artists fig.
Proof.
  exists (greedy_tokens (upper word)). eexists.
  split; [apply preprocess_word_greedy|].
  split; [apply draw_rose_sigil_run|].
  cbn [framed artists].
  split; [apply filter_sigil_artists|].
  intros k e1 e2 H1 H2.
  pose proof (segments_lookup _ _ _ _ H1 H2) as Hin.
  rewrite <- filter_sigil_artists in Hin.
  apply list_elem_of_filter in Hin as [_ Hin]. exact Hin.
Qed.


(** C7. The rendering is a function of the word alone: whatever figures
    pyplot holds open, a call returns the same figure and leaves pyplot as
    it found it, so two calls on one word resolve the same sequence and
    draw the same labels, segments and markers. *)
Theorem render_deterministic (word : string) (st st' : pyplot F) :
  (∃ (tokens : list string) (fig : figure F),
      preprocess_word word = Ok tokens
      ∧ artists fig = sigil_artists (resolved tokens)
      ∧ draw_rose_sigil word st = (Ok fig, st)
      ∧ draw_rose_sigil word st' = (Ok fig, st')
      ∧ draw_rose_sigil word (draw_rose_sigil word st).2 = (Ok fig, st))
  ∧ (∃ fig : figure F,
       draw_rose_sigil "JAMES" st = (Ok fig, st)
       ∧ draw_rose_sigil "JAMES" (draw_rose_sigil "JAMES" st).2 = (Ok fig, st)
       ∧ artists fig =
           sigil_artists
             [("I", "#9ACD32", ring_position 10 13 (fint 2));
              ("A", "#FFFF00", (fint 0, flit 7 1));
              ("M", "#0000FF", (fneg (flit 7 1), fint 0));
              ("A", "#FFFF00", (fint 0, flit 7 1));
              ("S", "#FF4500", ring_position 7 13 (fint 2))]).
Proof.
  split.
  - exists (greedy_tokens (upper word)),
      (framed (sigil_artists (resolved (greedy_tokens (upper word))))).
    split; [apply preprocess_word_greedy|].
    split; [reflexivity|].
    rewrite !draw_rose_sigil_run. done.
  - eexists. rewrite !draw_rose_sigil_run.
    split; [reflexivity|]. split; [reflexivity|].
    cbn [framed artists]. apply (f_equal sigil_artists).
    vm_compute. reflexivity.
Qed.
End RendererClaims.



Lemma segments_colored_by_source_AM :
  ∃ fig : figure fexpr,
    draw_rose_sigil "AM" [] = (Ok fig, [])
    ∧ Line2D [fint 0; fneg (flit 7 1)] [flit 7 1; fint 0] (Some "#FFFF00") 2
        ∈ artists fig.
Proof.
  destruct (segments_colored_by_source (F:=fexpr) "AM" [])
    as (tokens & fig & Hpre & Hdraw & _ & Hseg).
  exists fig. split; [exact Hdraw|].
  vm_compute in Hpre. injection Hpre as <-.
  apply (Hseg 0%nat ("A", "#FFFF00", (fint 0, flit 7 1))
              ("M", "#0000FF", (fneg (flit 7 1), fint 0)));
    vm_compute; reflexivity.
Defined.

(** * Further properties *)

(** ** The preprocessor *)








(** ** The renderer *)

Section RendererMore.
Context {F : Type} `{Float64 F} `{Countable F}.
Implicit Types (e : string * string * (F * F)).
Implicit Types (before es : list (string * string * (F * F))).

Lemma filter_label_step before e :
  filter is_label (step_artists before e) = [label e].
Proof.
  unfold step_artists. rewrite !filter_app.
  destruct (last before); destruct (bool_decide (e.2 ∈ coords before));
    reflexivity.
Qed.

Lemma filter_label_path es :
  ∀ before, filter is_label (path_artists before es) = label <$> es.
Proof.
  induction es as [|e es IH]; intros before; [done|].
  cbn [path_artists]. rewrite filter_app, filter_label_step, IH. reflexivity.
Qed.

Lemma filter_label_sigil es :
  filter is_label (sigil_artists es) = label <$> es.
Proof.
  unfold sigil_artists. rewrite filter_cons. cbn [is_label bounding_circle].
  rewrite !filter_app, filter_label_path.
  destruct (head es), (last es); cbn; by rewrite ?app_nil_r.
Qed.

Lemma filter_thin_step before e :
  filter is_thin_circle (step_artists before e) =
    if bool_decide (e.2 ∈ coords before) then [repeat_ring e.2 e.1.2] else [].
Proof.
  unfold step_artists. rewrite !filter_app.
  destruct (last before); destruct (bool_decide (e.2 ∈ coords before));
    reflexivity.
Qed.

Lemma coords_snoc before e : coords (before ++ [e]) = coords before ++ [e.2].
Proof. unfold coords. by rewrite fmap_app. Qed.

Lemma size_coords_snoc before e :
  size (list_to_set (C:=gset (F * F)) (coords (before ++ [e]))) =
    (size (list_to_set (C:=gset (F * F)) (coords before))
     + if bool_decide (e.2 ∈ coords before) then 0 else 1)%nat.
Proof.
  rewrite coords_snoc, list_to_set_app_L. cbn [list_to_set].
  destruct (bool_decide_reflect (e.2 ∈ coords before)) as [Hin|Hnin].
  - rewrite Nat.add_0_r. f_equal.
    apply (elem_of_list_to_set (C:=gset (F * F))) in Hin. set_solver.
  - rewrite size_union.
    + rewrite union_empty_r_L, size_singleton. lia.
    + rewrite <- (elem_of_list_to_set (C:=gset (F * F))) in Hnin. set_solver.
Qed.

Lemma thin_circles_path es :
  ∀ before,
    (length (filter is_thin_circle (path_artists before es))
     + size (list_to_set (C:=gset (F * F)) (coords (before ++ es)))
     = length es + size (list_to_set (C:=gset (F * F)) (coords before)))%nat.
Proof.
  induction es as [|e es IH]; intros before.
  - cbn [path_artists filter length]. by rewrite app_nil_r.
  - cbn [path_artists]. rewrite filter_app, length_app, filter_thin_step.
    specialize (IH (before ++ [e])).
    rewrite <- app_assoc in IH. cbn [app] in IH.
    rewrite size_coords_snoc in IH.
    destruct (bool_decide (e.2 ∈ coords before)); cbn [length] in *; lia.
Qed.

Lemma resolved_of_preprocess (word : string) (tokens : list string) :
  preprocess_word word = Ok tokens →
  tokens = greedy_tokens (upper word)
  ∧ Forall2 (λ t e, resolve t = Some e) tokens (resolved (F:=F) tokens).
Proof.
  rewrite preprocess_word_greedy. intros [= <-]. split; [done|].
  apply resolved_keys, (greedy_tokens_keys _ _ (le_n _)).
Qed.

(** X3. For a word with at least one token the drawing ends with the start
    marker, a black circle of radius 0.2 and width 3 at the first resolved
    coordinate, followed by the end marker, a black tick of width 3 from the
    last resolved coordinate to the point 0.2 to its right and 0.2 below. *)
Theorem start_and_end_markers (word : string) (tokens : list string)
    (st : pyplot F) :
  preprocess_word word = Ok tokens →
  tokens ≠ [] →
  ∃ e0 e1 (path : list (artist F)),
    head (resolved tokens) = Some e0
    ∧ last (resolved tokens) = Some e1
    ∧ draw_rose_sigil word st =
        (Ok (framed
               (path
                ++ [CirclePatch e0.2 (flit 2 1) "black" 3;
                    Line2D [e1.2.1; fadd e1.2.1 (flit 2 1)]
                           [e1.2.2; fsub e1.2.2 (flit 2 1)]
                           (Some "black") 3])), st).
Proof.
  intros Hpre Hne. destruct (resolved_of_preprocess _ _ Hpre) as [-> Hres].
  rewrite draw_rose_sigil_run. unfold sigil_artists.
  set (es := resolved (greedy_tokens (upper word))) in *.
  assert (Hes : es ≠ []).
  { intros Hnil. rewrite Hnil in Hres. apply Forall2_nil_inv_r in Hres. done. }
  destruct (head es) as [e0|] eqn:Hh; [|by destruct es].
  destruct (last es) as [e1|] eqn:Hl; [|by apply last_None in Hl].
  exists e0, e1, (bounding_circle :: path_artists [] es).
  split; [done|]. split; [done|]. reflexivity.
Qed.

(** X4. The labels on the figure are one per token, in the order of the
    tokens, each showing the symbol of its atlas entry in the color of that
    entry at the symbol's layout coordinate, in bold 16 point centred
    text. *)
Theorem one_label_per_token (word : string) (st : pyplot F) :
  ∃ (tokens : list string) (fig : figure F),
    preprocess_word word = Ok tokens
    ∧ draw_rose_sigil word st = (Ok fig, st)
    ∧ Forall2 (λ t a, ∃ letter color x y,
                 letter_mapping !! t = Some [(letter, color)]
                 ∧ all_positions !! letter = Some (x, y)
                 ∧ a = Text x y letter 16 "center" "center" color "bold")
              tokens (filter is_label (artists fig)).
Proof.
  exists (greedy_tokens (upper word)). eexists.
  split; [apply preprocess_word_greedy|].
  split; [apply draw_rose_sigil_run|].
  cbn [framed artists]. rewrite filter_label_sigil.
  pose proof (greedy_tokens_keys _ (upper word) (le_n _)) as Hk.
  induction Hk as [|t tokens Ht _ IH]; [constructor|].
  unfold in_mapping in Ht. apply bool_decide_eq_true in Ht as [entries Hl].
  destruct (resolve_entries (F:=F) _ _ Hl) as (l & c & [x y] & -> & Hp & Hr).
  unfold resolved. cbn [omap list_omap]. rewrite Hr. cbn [fmap list_fmap].
  constructor; [|exact IH]. by exists l, c, x, y.
Qed.

(** X5. Whatever the word, no label "E" is drawn: a label shows the symbol
    of some atlas key, and no key has the symbol "E", although the layout
    table holds a position for it. *)
Theorem label_E_never_drawn (word : string) (st : pyplot F) (fig : figure F)
    (x y : F) (s : string) (fontsize : Z) (ha va color fontweight : string) :
  draw_rose_sigil word st = (Ok fig, st) →
  Text x y s fontsize ha va color fontweight ∈ artists fig →
  (∃ key : string, letter_mapping !! key = Some [(s, color)])
  ∧ s ≠ "E"
  ∧ is_Some (all_positions (F:=F) !! "E").
Proof.
  rewrite draw_rose_sigil_run. intros [= <-] Hin. cbn [framed artists] in Hin.
  assert (Hlab : Text x y s fontsize ha va color fontweight
                 ∈ filter is_label (sigil_artists
                     (resolved (greedy_tokens (upper word))))).
  { apply list_elem_of_filter. by split. }
  rewrite filter_label_sigil in Hlab.
  apply list_elem_of_fmap in Hlab as ([[l c] xy] & Heq & He).
  unfold label in Heq. cbn [fst snd] in Heq. injection Heq as -> -> -> -> -> -> -> ->.
  unfold resolved in He. apply list_elem_of_omap in He as (t & _ & Hr).
  unfold resolve in Hr.
  destruct (letter_mapping !! t) as [entries|] eqn:Hl; [|done].
  destruct (atlas_entries (F:=F) _ _ Hl) as (l' & c' & xy' & -> & Hp).
  rewrite Hp in Hr. injection Hr as -> -> ->.
  split; [by exists t|]. split; [|vm_compute; eauto].
  assert (Hk : t ∈ atlas_keys)
    by (apply in_mapping_true, bool_decide_eq_true; by rewrite Hl).
  each_key Hk; subst t; vm_compute in Hl; injection Hl as <- _; discriminate.
Qed.

(** X6. The number of repeat rings is the number of tokens minus the number
    of distinct coordinates they resolve to: counting the bounding circle,
    the circles of width 2 and the distinct coordinates add up to one more
    than the tokens. *)
Theorem repeat_rings_counted (word : string) (st : pyplot F) :
  ∃ (tokens : list string) (fig : figure F),
    preprocess_word word = Ok tokens
    ∧ draw_rose_sigil word st = (Ok fig, st)
    ∧ (length (filter is_thin_circle (artists fig))
       + size (list_to_set (C:=gset (F * F)) (coords (resolved tokens)))
       = S (length tokens))%nat.
Proof.
  exists (greedy_tokens (upper word)). eexists.
  split; [apply preprocess_word_greedy|].
  split; [apply draw_rose_sigil_run|].
  cbn [framed artists].
  pose proof (greedy_tokens_keys _ (upper word) (le_n _)) as Hk.
  apply (resolved_keys (F:=F)) in Hk. apply Forall2_length in Hk. rewrite Hk.
  set (es := resolved (greedy_tokens (upper word))).
  pose proof (thin_circles_path es []) as Hc. cbn [app] in Hc.
  unfold sigil_artists. rewrite filter_cons_True by (by cbn).
  rewrite !filter_app. cbn [length]. rewrite !length_app.
  change (coords []) with (@nil (F * F)) in Hc. cbn [list_to_set] in Hc.
  rewrite size_empty in Hc.
  assert (Hs : ∀ p, length (filter is_thin_circle [start_marker (F:=F) p]) = 0%nat)
    by (intros p; vm_compute; reflexivity).
  assert (He : ∀ p, length (filter is_thin_circle [end_marker (F:=F) p]) = 0%nat)
    by (intros p; vm_compute; reflexivity).
  destruct (head es), (last es); rewrite ?Hs, ?He; cbn [filter list_filter length];
    lia.
Qed.

End RendererMore.

Lemma start_and_end_markers_AM :
  preprocess_word "AM" = Ok ["A"; "M"]
  ∧ ["A"; "M"] ≠ []
  ∧ ∃ e0 e1 (path : list (artist fexpr)),
      head (resolved ["A"; "M"]) = Some e0
      ∧ last (resolved ["A"; "M"]) = Some e1
      ∧ draw_rose_sigil "AM" [] =
          (Ok (framed
                 (path
                  ++ [CirclePatch e0.2 (flit 2 1) "black" 3;
                      Line2D [e1.2.1; fadd e1.2.1 (flit 2 1)]
                             [e1.2.2; fsub e1.2.2 (flit 2 1)]
                             (Some "black") 3])), []).
Proof.
  split; [vm_compute; reflexivity|]. split; [discriminate|].
  apply (start_and_end_markers (F:=fexpr) "AM" ["A"; "M"] []);
    [vm_compute; reflexivity | discriminate].
Defined.

Lemma label_E_never_drawn_word_E :
  draw_rose_sigil (F:=fexpr) "E" []
  = (Ok (framed (sigil_artists (resolved ["E"]))), [])
  ∧ Text (fint 0) (flit 7 1) "A" 16 "center" "center" "#FFFF00" "bold"
      ∈ artists (framed (sigil_artists (resolved (F:=fexpr) ["E"])))
  ∧ (∃ key : string, letter_mapping !! key = Some [("A", "#FFFF00")])
  ∧ "A" ≠ "E"
  ∧ is_Some (all_positions (F:=fexpr) !! "E").
Proof.
  assert (Hd : draw_rose_sigil (F:=fexpr) "E" []
               = (Ok (framed (sigil_artists (resolved ["E"]))), []))
    by (vm_compute; reflexivity).
  assert (Hin : Text (fint 0) (flit 7 1) "A" 16 "center" "center" "#FFFF00" "bold"
                ∈ artists (framed (sigil_artists (resolved (F:=fexpr) ["E"]))))
    by (vm_compute; right; left).
  split; [exact Hd|]. split; [exact Hin|].
  exact (label_E_never_drawn (F:=fexpr) "E" [] _ _ _ _ _ _ _ _ _ Hd Hin).
Defined.

(** ** The sigils route *)





Section RoutesFacts.
Context {F : Type} `{Float64 F} `{Countable F}.


End RoutesFacts.


(** ** The planner helpers *)

Lemma py_index_planets (z : Z) :
  (0 <= z < 7)%Z → ∃ p : string, py_index planets z = Some p ∧ p ∈ planets.
Proof.
  intros Hz.
  assert (Hcases : z = 0%Z ∨ z = 1%Z ∨ z = 2%Z ∨ z = 3%Z ∨ z = 4%Z ∨ z = 5%Z
                   ∨ z = 6%Z) by lia.
  destruct Hcases as [->|[->|[->|[->|[->|[->| ->]]]]]];
    eexists; (split; [reflexivity|]); unfold planets;
    repeat first [by left | right].
Qed.

Lemma weekday_cases (day : string) :
  day ∈ weekdays →
  day = "Sunday" ∨ day = "Monday" ∨ day = "Tuesday" ∨ day = "Wednesday"
  ∨ day = "Thursday" ∨ day = "Friday" ∨ day = "Saturday".
Proof.
  unfold weekdays. rewrite !elem_of_cons, elem_of_nil. tauto.
Qed.

(** X8. For each of the seven weekday names and any whole number of hours,
    negative ones included, the planet selection raises nothing and returns
    one of the seven planets; at hour 0 of the day it is the planet the day
    starts with. *)
Theorem planetary_hour_is_a_planet (day : string) (daytime : bool) (hours : Z) :
  day ∈ weekdays →
  (∃ p : string,
      current_planet day daytime hours = Some p ∧ p ∈ planets
      ∧ get_planetary_hour day daytime hours = p)
  ∧ current_planet day true 0 = start_planet !! day.
Proof.
  intros Hd. split.
  - assert (Hp : ∀ z : Z, ∃ p, py_index planets (z mod 7)%Z = Some p ∧ p ∈ planets).
    { intros z. apply py_index_planets. apply Z.mod_pos_bound. lia. }
    unfold get_planetary_hour.
    apply weekday_cases in Hd as [->|[->|[->|[->|[->|[->| ->]]]]]];
      destruct daytime;
      match goal with
      | |- ∃ p, current_planet ?d ?b hours = Some p ∧ _ =>
          let idx := eval vm_compute in
            (default 0%nat (start_planet !! d ≫= λ q, list_index_of q planets)) in
          let off := eval vm_compute in (if b then 0%Z else 12%Z) in
          destruct (Hp (Z.of_nat idx + off + hours)%Z) as (p & Hp1 & Hp2);
          exists p;
          assert (Hcp : current_planet d b hours = Some p)
            by (rewrite <- Hp1; unfold current_planet;
                cbn -[Z.modulo py_index planets]; f_equal; f_equal; lia);
          rewrite Hcp; done
      end.
  - apply weekday_cases in Hd as [->|[->|[->|[->|[->|[->| ->]]]]]];
      vm_compute; reflexivity.
Qed.

Lemma planetary_hour_is_a_planet_friday :
  "Friday" ∈ weekdays
  ∧ (∃ p : string,
        current_planet "Friday" false (-3) = Some p ∧ p ∈ planets
        ∧ get_planetary_hour "Friday" false (-3) = p)
  ∧ current_planet "Friday" true 0 = start_planet !! "Friday".
Proof.
  assert (Hd : "Friday" ∈ weekdays) by (unfold weekdays; set_solver).
  split; [exact Hd|].
  exact (planetary_hour_is_a_planet "Friday" false (-3) Hd).
Defined.

Lemma current_planet_index (day p : string) (idx : nat) (daytime : bool)
    (hours : Z) :
  start_planet !! day = Some p →
  list_index_of p planets = Some idx →
  current_planet day daytime hours =
    py_index planets
      ((Z.of_nat idx + (if daytime then 0 else 12) + hours) mod 7)%Z.
Proof.
  intros Hs Hi. unfold current_planet. rewrite Hs. cbn [mbind option_bind].
  rewrite Hi. cbn [mbind option_bind].
  destruct daytime; do 2 f_equal; lia.
Qed.

(** X9. The two tables agree with the order of the week: 24 planetary
    hours after any hour of a day comes the planet of the same hour of the
    next day, Saturday being followed by Sunday; so the selection repeats
    after 168 hours. *)
Theorem planetary_hours_follow_the_week (i : nat) (day next : string)
    (daytime : bool) (hours : Z) :
  weekdays !! i = Some day →
  weekdays !! ((i + 1) mod 7)%nat = Some next →
  current_planet day daytime (hours + 24) = current_planet next daytime hours
  ∧ current_planet day daytime (hours + 168) = current_planet day daytime hours.
Proof.
  intros Hd Hn.
  assert (Hmod : ∀ a b : Z, (∃ k : Z, a = b + 7 * k)%Z → (a mod 7 = b mod 7)%Z).
  { intros a b [k ->]. rewrite Z.mul_comm. apply Z_mod_plus_full. }
  do 7 (destruct i as [|i];
        [cbn in Hd, Hn; injection Hd as <-; injection Hn as <-;
         split;
         (erewrite !current_planet_index by (vm_compute; reflexivity);
          f_equal; apply Hmod;
          first [ by exists 0%Z; cbn; lia | by exists 1%Z; cbn; lia
                | by exists 2%Z; cbn; lia | by exists 3%Z; cbn; lia
                | by exists 4%Z; cbn; lia | by exists 24%Z; cbn; lia ])
        |]).
  cbn in Hd. done.
Qed.

Lemma planetary_hours_follow_the_week_saturday :
  weekdays !! 6%nat = Some "Saturday"
  ∧ weekdays !! ((6 + 1) mod 7)%nat = Some "Sunday"
  ∧ current_planet "Saturday" true (5 + 24) = current_planet "Sunday" true 5
  ∧ current_planet "Saturday" true (5 + 168) = current_planet "Saturday" true 5.
Proof.
  split; [reflexivity|]. split; [reflexivity|].
  apply (planetary_hours_follow_the_week 6 "Saturday" "Sunday" true 5);
    reflexivity.
Defined.
